(** * JFR finalizer statistics events

    A shallow embedding of
    [src/hotspot/share/jfr/periodic/jfrFinalizerEvent.cpp]: the provenance
    resolver [codesource], the event builder [send_event] and the two entry
    points [JfrFinalizerEvent::send_unload_event] and
    [JfrFinalizerEvent::generate_events].

    The VM state the file touches is gathered in one record, [World]; every
    C++ function becomes a function in the monad [VM], which threads the
    world and can stop with a [fault] (a failed [assert] of a debug build,
    or a dereference of NULL). *)

From Stdlib Require Import ZArith String.
From stdpp Require Import base option list gmap strings.

Open Scope Z_scope.

(** ** Data model *)

(** Addresses of Java heap objects. An [oop] is NULL ([None]) or the address
    of an object. *)
Definition address := positive.
Definition oop := option address.

(** Address of a klass metadata object. *)
Definition Klass := positive.

(** [Thread*]: NULL or a thread. *)
Definition Thread := positive.

(** [JfrTicks], [traceid] (u8) and the [uintptr_t] counters of a
    [FinalizerEntry] are integers; this file performs no arithmetic on
    them. *)
Definition JfrTicks := Z.
Definition traceid := Z.

(** A Java object as far as this file looks at it: its klass, its reference
    fields by (name, signature), and for a [java.lang.String] the characters
    of its value array ([None]: no value array). *)
Record JavaObject := mkJavaObject {
  obj_klass : Klass;
  obj_fields : gmap (string * string) oop;
  obj_chars : option string
}.

Global Instance JavaObject_inhabited : Inhabited JavaObject :=
  populate (mkJavaObject 1%positive ∅ None).

(** The parts of an [InstanceKlass] that are read here. *)
Record InstanceKlass := mkInstanceKlass {
  ik_addr : Klass;
  java_mirror : oop;
  has_finalizer : bool
}.

Global Instance InstanceKlass_eq_dec : EqDecision InstanceKlass.
Proof. solve_decision. Defined.

(** [const FinalizerEntry]: the owning klass pointer and the three
    counters, read through [klass()], [registered()], [enqueued()] and
    [finalized()]. *)
Module FinalizerEntry.
Record t := mk {
  klass : option InstanceKlass;
  registered : Z;
  enqueued : Z;
  finalized : Z
}.
End FinalizerEntry.

(** [EventFinalizer], the generated JFR event class: its fields and
    setters. *)
Module EventFinalizer.
Record t := mk {
  endtime : JfrTicks;
  overridingClass : option InstanceKlass;
  codeSource : traceid;
  registered : Z;
  enqueued : Z;
  finalized : Z
}.

(** [EventFinalizer event(UNTIMED)] *)
Definition UNTIMED : t := mk 0 None 0 0 0 0.

Definition set_endtime (v : JfrTicks) (e : t) : t :=
  mk v (overridingClass e) (codeSource e) (registered e) (enqueued e) (finalized e).
Definition set_overridingClass (v : option InstanceKlass) (e : t) : t :=
  mk (endtime e) v (codeSource e) (registered e) (enqueued e) (finalized e).
Definition set_codeSource (v : traceid) (e : t) : t :=
  mk (endtime e) (overridingClass e) v (registered e) (enqueued e) (finalized e).
Definition set_registered (v : Z) (e : t) : t :=
  mk (endtime e) (overridingClass e) (codeSource e) v (enqueued e) (finalized e).
Definition set_enqueued (v : Z) (e : t) : t :=
  mk (endtime e) (overridingClass e) (codeSource e) (registered e) v (finalized e).
Definition set_finalized (v : Z) (e : t) : t :=
  mk (endtime e) (overridingClass e) (codeSource e) (registered e) (enqueued e) v.
End EventFinalizer.

(** The VM state.
    - [ASSERT]: whether this is a debug build (the macro that enables
      [assert]);
    - [current]: [Thread::current()];
    - [heap]: the Java heap;
    - [finalizer_table]: the entries of [FinalizerTable], in its iteration
      order;
    - [symbols], [symbol_id_counter]: [JfrSymbolTable];
    - [committed]: the events handed to the event sink, oldest first;
    - [ticks], [clock_reads]: the counter source behind [JfrTicks::now()],
      as the sequence of values its successive reads return and the number
      of reads made so far. *)
Record World := mkWorld {
  ASSERT : bool;
  current : Thread;
  heap : gmap address JavaObject;
  finalizer_table : list FinalizerEntry.t;
  symbols : gmap string traceid;
  symbol_id_counter : traceid;
  committed : list EventFinalizer.t;
  ticks : nat -> JfrTicks;
  clock_reads : nat
}.

(** ** The monad of VM code *)

Inductive fault :=
| assertion_failure (msg : string)
| null_dereference.

Inductive outcome (A : Type) :=
| Ok (a : A) (w : World)
| Crash (f : fault).
Arguments Ok {A} a w.
Arguments Crash {A} f.

Definition VM (A : Type) := World -> outcome A.

Definition ret {A} (a : A) : VM A := fun w => Ok a w.

Definition bind {A B} (m : VM A) (k : A -> VM B) : VM B :=
  fun w => match m w with
           | Ok a w' => k a w'
           | Crash f => Crash f
           end.

Declare Scope vm_scope.
Delimit Scope vm_scope with vm.
Notation "'let*' x ':=' m 'in' k" := (bind m (fun x => k))
  (at level 10, x name, m at level 100, k at level 200, only parsing) : vm_scope.
Notation "m ';;' k" := (bind m (fun _ => k))
  (at level 100, k at level 200, right associativity, only parsing) : vm_scope.
Open Scope vm_scope.

(** [assert(cond, "invariant")]: checked in debug builds only. *)
Definition assert (cond : bool) (msg : string) : VM unit :=
  fun w => if ASSERT w && negb cond then Crash (assertion_failure msg) else Ok tt w.

(** [p->...] on a pointer: NULL faults. *)
Definition deref {A} (p : option A) : VM A :=
  fun w => match p with
           | Some a => Ok a w
           | None => Crash null_dereference
           end.

Definition is_null {A} (p : option A) : bool :=
  match p with Some _ => false | None => true end.

(** ** Collaborators declared outside this file *)

(** Modelled from the spec: [Thread::current()], the calling thread. *)
Definition Thread_current : VM (option Thread) :=
  fun w => Ok (Some (current w)) w.

(** Modelled from the spec: [JfrTicks::now()], the current instant; the
    clock is an oracle giving the value of each successive read. *)
Definition JfrTicks_now : VM JfrTicks :=
  fun w => Ok (ticks w (clock_reads w))
              (mkWorld (ASSERT w) (current w) (heap w) (finalizer_table w)
                       (symbols w) (symbol_id_counter w) (committed w)
                       (ticks w) (S (clock_reads w))).

(** [obj->klass()] on an oop. An address that holds no object reads as an
    object without fields. *)
Definition oop_klass (obj : oop) : VM Klass :=
  let* a := deref obj in
  fun w => Ok (obj_klass (heap w !!! a)) w.

(** [JfrJavaArguments]: the klass, field name, signature and receiver of a
    field read; the [JavaValue] result is returned by [get_field]. *)
Record JfrJavaArguments := mkArgs {
  args_klass : Klass;
  args_name : string;
  args_signature : string;
  args_receiver : oop
}.

(** Modelled from the spec: [FieldAccessor.readObjectField] (here
    [JfrJavaSupport::get_field]) reads the field of the receiver with the
    given name and type signature; a field that cannot be resolved is
    surfaced as no value. *)
Definition read_object_field (h : gmap address JavaObject)
    (receiver : oop) (name signature : string) : oop :=
  match receiver with
  | Some a => default None (obj_fields (h !!! a) !! (name, signature))
  | None => None
  end.

Definition JfrJavaSupport_get_field (args : JfrJavaArguments)
    (thread : option Thread) : VM oop :=
  fun w => Ok (read_object_field (heap w) (args_receiver args)
                                 (args_name args) (args_signature args)) w.

(** The characters of the [java.lang.String] at [string_oop], if any. *)
Definition string_chars (h : gmap address JavaObject) (string_oop : oop)
    : option string :=
  match string_oop with
  | Some a => obj_chars (h !!! a)
  | None => None
  end.

(** Modelled from the spec: [JfrJavaSupport::c_str], the conversion of a
    [java.lang.String] to a C string. It reads the string object, so its
    argument must not be NULL; the result is NULL when the string has no
    value. *)
Definition JfrJavaSupport_c_str (string_oop : oop) (thread : option Thread)
    : VM (option string) :=
  let* a := deref string_oop in
  fun w => Ok (string_chars (heap w) (Some a)) w.

(** Modelled from the spec: [java_lang_Class::protection_domain], the
    protection context object of a class mirror, or none. *)
Definition java_lang_Class_protection_domain (mirror : oop) : VM oop :=
  fun w => Ok (read_object_field (heap w) mirror "protection_domain"
                                 "Ljava/security/ProtectionDomain;") w.

(** Modelled from the spec: [JfrSymbolTable::add], the interned identifier
    of a string: the one it already has, or the next fresh one. *)
Definition JfrSymbolTable_add (str : string) : VM traceid :=
  fun w => match symbols w !! str with
           | Some id => Ok id w
           | None =>
             let id := symbol_id_counter w + 1 in
             Ok id (mkWorld (ASSERT w) (current w) (heap w) (finalizer_table w)
                            (<[str := id]> (symbols w)) id (committed w)
                            (ticks w) (clock_reads w))
           end.

(** Modelled from the spec: [EventSink.commit], which hands the event to
    the sink and never rejects it. *)
Definition commit (event : EventFinalizer.t) : VM unit :=
  fun w => Ok tt (mkWorld (ASSERT w) (current w) (heap w) (finalizer_table w)
                          (symbols w) (symbol_id_counter w)
                          (committed w ++ [event])
                          (ticks w) (clock_reads w)).

(** Modelled from the spec: [EntryLookup.find] (here
    [FinalizerTable::lookup]), the entry of the table whose klass is [ik],
    or none. *)
Definition FinalizerTable_lookup (ik : option InstanceKlass)
    (thread : option Thread) : VM (option FinalizerEntry.t) :=
  fun w => Ok (List.find (fun fe => bool_decide (FinalizerEntry.klass fe = ik))
                         (finalizer_table w)) w.

(** The interface [FinalizerEntryClosure] with its one virtual method. *)
Class FinalizerEntryClosure (C : Type) := {
  do_entry : C -> option FinalizerEntry.t -> VM bool
}.

(** Modelled from the spec: [EntryLookup.forEach] (here
    [FinalizerTable::do_entries]) visits the entries one at a time; the
    callback's return value signals whether to continue. *)
Fixpoint do_scan {C} `{FinalizerEntryClosure C} (closure : C)
    (entries : list FinalizerEntry.t) : VM unit :=
  match entries with
  | [] => ret tt
  | fe :: rest =>
    let* continue := do_entry closure (Some fe) in
    if continue then do_scan closure rest else ret tt
  end.

Definition FinalizerTable_do_entries {C} `{FinalizerEntryClosure C}
    (closure : C) (thread : option Thread) : VM unit :=
  fun w => do_scan closure (finalizer_table w) w.

(** ** The functions of jfrFinalizerEvent.cpp *)

(** [static oop get_codesource(oop pd, Thread* thread)] *)
Definition get_codesource (pd : oop) (thread : option Thread) : VM oop :=
  assert (negb (is_null pd)) "invariant";;
  assert (negb (is_null thread)) "invariant";;
  let* k := oop_klass pd in
  let args := mkArgs k "codesource" "Ljava/security/CodeSource;" pd in
  JfrJavaSupport_get_field args thread.

(** [static const char* get_locationNoFragString(oop codesource, Thread* thread)] *)
Definition get_locationNoFragString (codesource : oop) (thread : option Thread)
    : VM (option string) :=
  assert (negb (is_null codesource)) "invariant";;
  assert (negb (is_null thread)) "invariant";;
  let* k := oop_klass codesource in
  let args := mkArgs k "locationNoFragString" "Ljava/lang/String;" codesource in
  let* string_oop := JfrJavaSupport_get_field args thread in
  if negb (is_null string_oop) then JfrJavaSupport_c_str string_oop thread
  else ret None.

(** [static const char* codesource(const InstanceKlass* ik, Thread* thread)] *)
Definition codesource (ik : option InstanceKlass) (thread : option Thread)
    : VM (option string) :=
  assert (negb (is_null ik)) "invariant";;
  assert (negb (is_null thread)) "invariant";;
  let* k := deref ik in
  let* pd := java_lang_Class_protection_domain (java_mirror k) in
  if is_null pd then ret None
  else
    let* codesource := get_codesource pd thread in
    if negb (is_null codesource) then get_locationNoFragString codesource thread
    else ret None.

(** [static void send_event(const FinalizerEntry* fe, const InstanceKlass* ik,
                            const JfrTicks& timestamp, Thread* thread)].
    The condition [ik->has_finalizer()] is only evaluated after the
    assertion [ik != NULL]; it reads as false on NULL. *)
Definition send_event (fe : option FinalizerEntry.t) (ik : option InstanceKlass)
    (timestamp : JfrTicks) (thread : option Thread) : VM unit :=
  assert (negb (is_null ik)) "invariant";;
  assert (from_option has_finalizer false ik) "invariant";;
  assert (negb (is_null thread)) "invariant";;
  let* url := codesource ik thread in
  let* codesource_symbol_id :=
    match url with
    | Some s => JfrSymbolTable_add s
    | None => ret 0
    end in
  let event := EventFinalizer.UNTIMED in
  let event := EventFinalizer.set_endtime timestamp event in
  let event := EventFinalizer.set_overridingClass ik event in
  let event := EventFinalizer.set_codeSource codesource_symbol_id event in
  match fe with
  | None =>
    let event := EventFinalizer.set_registered 0 event in
    let event := EventFinalizer.set_enqueued 0 event in
    let event := EventFinalizer.set_finalized 0 event in
    commit event
  | Some e =>
    assert (bool_decide (FinalizerEntry.klass e = ik)) "invariant";;
    let event := EventFinalizer.set_registered (FinalizerEntry.registered e) event in
    let event := EventFinalizer.set_enqueued (FinalizerEntry.enqueued e) event in
    let event := EventFinalizer.set_finalized (FinalizerEntry.finalized e) event in
    commit event
  end.

(** [void JfrFinalizerEvent::send_unload_event(const InstanceKlass* ik)].
    The two argument expressions [FinalizerTable::lookup(ik, thread)] and
    [JfrTicks::now()] touch disjoint parts of the state, so their order of
    evaluation does not matter. *)
Definition send_unload_event (ik : option InstanceKlass) : VM unit :=
  assert (negb (is_null ik)) "invariant";;
  assert (from_option has_finalizer false ik) "invariant";;
  let* thread := Thread_current in
  let* fe := FinalizerTable_lookup ik thread in
  let* timestamp := JfrTicks_now in
  send_event fe ik timestamp thread.

(** [class FinalizerEventClosure : public FinalizerEntryClosure] *)
Record FinalizerEventClosure := mkClosure {
  _thread : option Thread;
  _timestamp : JfrTicks
}.

(** [FinalizerEventClosure(Thread* thread)
       : _thread(thread), _timestamp(JfrTicks::now()) {}] *)
Definition new_FinalizerEventClosure (thread : option Thread)
    : VM FinalizerEventClosure :=
  let* now := JfrTicks_now in
  ret (mkClosure thread now).

(** [virtual bool do_entry(const FinalizerEntry* fe)] *)
Definition FinalizerEventClosure_do_entry (this : FinalizerEventClosure)
    (fe : option FinalizerEntry.t) : VM bool :=
  assert (negb (is_null fe)) "invariant";;
  let* e := deref fe in
  send_event fe (FinalizerEntry.klass e) (_timestamp this) (_thread this);;
  ret true.

Global Instance FinalizerEventClosure_closure
    : FinalizerEntryClosure FinalizerEventClosure :=
  {| do_entry := FinalizerEventClosure_do_entry |}.

(** [void JfrFinalizerEvent::generate_events()]. The [ResourceMark] and the
    [MutexLocker] on [ClassLoaderDataGraph_lock] leave the state modelled
    here as it is. *)
Definition generate_events : VM unit :=
  let* thread := Thread_current in
  let* fec := new_FinalizerEventClosure thread in
  FinalizerTable_do_entries fec thread.

(** ** The resolver as the specification words it *)

Definition protection_context (h : gmap address JavaObject) (ik : InstanceKlass)
    : oop :=
  read_object_field h (java_mirror ik) "protection_domain"
                    "Ljava/security/ProtectionDomain;".

Definition code_source_of (h : gmap address JavaObject) (pd : oop) : oop :=
  read_object_field h pd "codesource" "Ljava/security/CodeSource;".

Definition location_string (h : gmap address JavaObject) (cs : oop)
    : option string :=
  string_chars h (read_object_field h cs "locationNoFragString"
                                    "Ljava/lang/String;").

(** "Read the protection context; if absent, return none. Otherwise read
    its code source; if absent, return none. Otherwise read the location
    string; if that read yields no value, return none." *)
Definition ProvenanceResolver_resolve (h : gmap address JavaObject)
    (ik : InstanceKlass) : option string :=
  match protection_context h ik with
  | None => None
  | Some pd =>
    match code_source_of h (Some pd) with
    | None => None
    | Some cs =>
      match location_string h (Some cs) with
      | None => None
      | Some url => Some url
      end
    end
  end.

(** ** Derived notions used in the statements *)

(** The tracking entry of [ik], as [FinalizerTable::lookup] finds it. *)
Definition entry_of (w : World) (ik : InstanceKlass) : option FinalizerEntry.t :=
  List.find (fun fe => bool_decide (FinalizerEntry.klass fe = Some ik))
            (finalizer_table w).

(** The precondition of [send_event] on the klass of an entry: non-null and
    with a finalizer. *)
Definition entry_valid (fe : FinalizerEntry.t) : bool :=
  from_option has_finalizer false (FinalizerEntry.klass fe).

Definition table_valid (w : World) : Prop :=
  Forall (fun fe => entry_valid fe = true) (finalizer_table w).

(** [0 <= finalized <= enqueued <= registered] on an entry and on an
    event. *)
Definition entry_counters_ordered (fe : FinalizerEntry.t) : Prop :=
  0 <= FinalizerEntry.finalized fe
  /\ FinalizerEntry.finalized fe <= FinalizerEntry.enqueued fe
  /\ FinalizerEntry.enqueued fe <= FinalizerEntry.registered fe.

Definition event_counters_ordered (e : EventFinalizer.t) : Prop :=
  0 <= EventFinalizer.finalized e
  /\ EventFinalizer.finalized e <= EventFinalizer.enqueued e
  /\ EventFinalizer.enqueued e <= EventFinalizer.registered e.

(** The event carries the counters and the klass of the entry. *)
Definition carries_entry (fe : FinalizerEntry.t) (e : EventFinalizer.t) : Prop :=
  EventFinalizer.overridingClass e = FinalizerEntry.klass fe
  /\ EventFinalizer.registered e = FinalizerEntry.registered fe
  /\ EventFinalizer.enqueued e = FinalizerEntry.enqueued fe
  /\ EventFinalizer.finalized e = FinalizerEntry.finalized fe.

Definition zero_counters (e : EventFinalizer.t) : Prop :=
  EventFinalizer.registered e = 0
  /\ EventFinalizer.enqueued e = 0
  /\ EventFinalizer.finalized e = 0.

(** What a call leaves alone: the build, the thread, the heap, the tracking
    table and the clock source. *)
Definition preserved (w w' : World) : Prop :=
  ASSERT w' = ASSERT w /\ current w' = current w /\ heap w' = heap w
  /\ finalizer_table w' = finalizer_table w /\ ticks w' = ticks w.

(** The world after interning [url], and the identifier it gets. *)
Definition intern (url : option string) (w : World) : traceid * World :=
  match url with
  | Some s =>
    match JfrSymbolTable_add s w with
    | Ok id w' => (id, w')
    | Crash _ => (0, w)
    end
  | None => (0, w)
  end.

(** The event [send_event] builds from its arguments and the interned
    identifier. *)
Definition built_event (fe : option FinalizerEntry.t) (ik : option InstanceKlass)
    (timestamp : JfrTicks) (id : traceid) : EventFinalizer.t :=
  match fe with
  | None => EventFinalizer.mk timestamp ik id 0 0 0
  | Some e => EventFinalizer.mk timestamp ik id (FinalizerEntry.registered e)
                (FinalizerEntry.enqueued e) (FinalizerEntry.finalized e)
  end.

(** The world after one read of the clock. *)
Definition after_now (w : World) : World :=
  mkWorld (ASSERT w) (current w) (heap w) (finalizer_table w)
          (symbols w) (symbol_id_counter w) (committed w)
          (ticks w) (S (clock_reads w)).

(** The world [send_event] ends in. *)
Definition after_send (fe : option FinalizerEntry.t) (ik : InstanceKlass)
    (timestamp : JfrTicks) (w : World) : World :=
  let r := intern (ProvenanceResolver_resolve (heap w) ik) w in
  match commit (built_event fe (Some ik) timestamp r.1) r.2 with
  | Ok _ w' => w'
  | Crash _ => w
  end.

(** The relation between an entry and its event within one sweep that
    started in a world with heap [h] and read the timestamp [T]. *)
Definition sweep_event (h : gmap address JavaObject) (T : JfrTicks)
    (fe : FinalizerEntry.t) (e : EventFinalizer.t) : Prop :=
  EventFinalizer.endtime e = T
  /\ carries_entry fe e
  /\ (forall ik, FinalizerEntry.klass fe = Some ik ->
        ProvenanceResolver_resolve h ik = None ->
        EventFinalizer.codeSource e = 0).

(** The result world of a run, for evaluating the model on examples. *)
Definition world_of {A} (r : outcome A) : option World :=
  match r with Ok _ w => Some w | Crash _ => None end.

(** ** A concrete VM state

    Klass [klass_A] was loaded from [file:/app.jar]: its mirror (address 10)
    has a protection domain (11) with a code source (12) whose location
    string (13) has characters. Klass [klass_B] has a mirror (20) without a
    protection domain. Klasses [klass_C] and [klass_D] share the mirror of
    [klass_A]; [klass_C] has no tracking entry. *)

Definition sig_pd : string := "Ljava/security/ProtectionDomain;".
Definition sig_cs : string := "Ljava/security/CodeSource;".
Definition sig_str : string := "Ljava/lang/String;".

Definition heap0 : gmap address JavaObject :=
  <[10%positive := mkJavaObject 1%positive {[ ("protection_domain"%string, sig_pd) := Some 11%positive ]} None]>
  (<[11%positive := mkJavaObject 2%positive {[ ("codesource"%string, sig_cs) := Some 12%positive ]} None]>
  (<[12%positive := mkJavaObject 3%positive {[ ("locationNoFragString"%string, sig_str) := Some 13%positive ]} None]>
  (<[13%positive := mkJavaObject 4%positive ∅ (Some "file:/app.jar"%string)]>
  (<[20%positive := mkJavaObject 1%positive ∅ None]> ∅)))).

Definition klass_A : InstanceKlass := mkInstanceKlass 100%positive (Some 10%positive) true.
Definition klass_B : InstanceKlass := mkInstanceKlass 200%positive (Some 20%positive) true.
Definition klass_C : InstanceKlass := mkInstanceKlass 300%positive (Some 10%positive) true.
Definition klass_D : InstanceKlass := mkInstanceKlass 400%positive (Some 10%positive) true.

Definition entry_A : FinalizerEntry.t := FinalizerEntry.mk (Some klass_A) 5 3 2.
Definition entry_B : FinalizerEntry.t := FinalizerEntry.mk (Some klass_B) 7 7 1.
Definition entry_D : FinalizerEntry.t := FinalizerEntry.mk (Some klass_D) 4 0 0.

Definition world0 : World :=
  mkWorld true 1%positive heap0 [entry_A; entry_B; entry_D] ∅ 1 []
          (fun n => 1000 + Z.of_nat n) 0.


(** The state after one sweep from [world0]. *)
Definition world1 : World := default world0 (world_of (generate_events world0)).

(** The same state with another tracking table. *)
Definition set_finalizer_table (table : list FinalizerEntry.t) (w : World)
    : World :=
  mkWorld (ASSERT w) (current w) (heap w) table (symbols w)
          (symbol_id_counter w) (committed w) (ticks w) (clock_reads w).

(** The same state in a product build, where [assert] is compiled out. *)
Definition product_build (w : World) : World :=
  mkWorld false (current w) (heap w) (finalizer_table w) (symbols w)
          (symbol_id_counter w) (committed w) (ticks w) (clock_reads w).

(** [klass_E] has no finalizer; [world_bad] tracks it all the same, between
    two sound entries. *)
Definition klass_E : InstanceKlass := mkInstanceKlass 500%positive (Some 20%positive) false.
Definition entry_E : FinalizerEntry.t := FinalizerEntry.mk (Some klass_E) 1 1 1.
Definition world_bad : World :=
  set_finalizer_table [entry_A; entry_E; entry_B] world0.
Definition world_empty : World := set_finalizer_table [] world0.

(** [world_unordered] tracks [klass_B] with counters that are out of order,
    after the sound entry of [klass_A]. *)
Definition world_unordered : World :=
  set_finalizer_table [entry_A; FinalizerEntry.mk (Some klass_B) 1 2 3] world0.

(** The state after the unload event of [klass_A] from [world0]. *)
Definition world_unload : World :=
  default world0 (world_of (send_unload_event (Some klass_A) world0)).

(** ** Basic facts about the monad and the collaborators *)

Lemma assert_holds (c : bool) (msg : string) (w : World) :
  c = true -> assert c msg w = Ok tt w.
Proof. intros ->. unfold assert. by rewrite andb_false_r. Qed.

Lemma bind_Ok {A B} (m : VM A) (k : A -> VM B) (w w' : World) (a : A) :
  m w = Ok a w' -> bind m k w = k a w'.
Proof. unfold bind. by intros ->. Qed.

Lemma bind_Crash {A B} (m : VM A) (k : A -> VM B) (w : World) (f : fault) :
  m w = Crash f -> bind m k w = Crash f.
Proof. unfold bind. by intros ->. Qed.

Lemma get_codesource_run (a : address) (th : Thread) (w : World) :
  get_codesource (Some a) (Some th) w = Ok (code_source_of (heap w) (Some a)) w.
Proof.
  unfold get_codesource.
  rewrite (bind_Ok _ _ w w tt) by by apply assert_holds.
  rewrite (bind_Ok _ _ w w tt) by by apply assert_holds.
  reflexivity.
Qed.

Lemma get_locationNoFragString_run (a : address) (th : Thread) (w : World) :
  get_locationNoFragString (Some a) (Some th) w
  = Ok (location_string (heap w) (Some a)) w.
Proof.
  unfold get_locationNoFragString.
  rewrite (bind_Ok _ _ w w tt) by by apply assert_holds.
  rewrite (bind_Ok _ _ w w tt) by by apply assert_holds.
  unfold location_string, bind, oop_klass, bind, deref, JfrJavaSupport_get_field.
  cbn [args_receiver args_name args_signature].
  by destruct (read_object_field (heap w) (Some a) _ _).
Qed.

Lemma codesource_run (ik : InstanceKlass) (th : Thread) (w : World) :
  codesource (Some ik) (Some th) w
  = Ok (ProvenanceResolver_resolve (heap w) ik) w.
Proof.
  unfold codesource.
  rewrite (bind_Ok _ _ w w tt) by by apply assert_holds.
  rewrite (bind_Ok _ _ w w tt) by by apply assert_holds.
  rewrite (bind_Ok _ _ w w ik) by done.
  rewrite (bind_Ok _ _ w w (protection_context (heap w) ik)) by done.
  unfold ProvenanceResolver_resolve.
  destruct (protection_context (heap w) ik) as [pd|]; [|done].
  cbn [is_null].
  rewrite (bind_Ok _ _ w w _ (get_codesource_run pd th w)).
  destruct (code_source_of (heap w) (Some pd)) as [cs|]; [|done].
  cbn [is_null negb].
  rewrite get_locationNoFragString_run.
  by destruct (location_string (heap w) (Some cs)).
Qed.

(** The identifier and the world [intern] yields. *)
Lemma intern_preserved (url : option string) (w : World) :
  preserved w (intern url w).2
  /\ committed (intern url w).2 = committed w
  /\ clock_reads (intern url w).2 = clock_reads w.
Proof.
  unfold intern, JfrSymbolTable_add, preserved.
  destruct url as [s|]; [|done].
  by destruct (symbols w !! s).
Qed.

Lemma intern_none (w : World) : intern None w = (0, w).
Proof. reflexivity. Qed.

Lemma intern_some (s : string) (w : World) :
  symbols (intern (Some s) w).2 !! s = Some (intern (Some s) w).1.
Proof.
  unfold intern, JfrSymbolTable_add.
  destruct (symbols w !! s) eqn:E; [done|].
  cbn. by rewrite lookup_insert_eq.
Qed.

Lemma send_event_run (fe : option FinalizerEntry.t) (ik : InstanceKlass)
    (timestamp : JfrTicks) (th : Thread) (w : World) :
  has_finalizer ik = true ->
  (forall e, fe = Some e -> FinalizerEntry.klass e = Some ik) ->
  send_event fe (Some ik) timestamp (Some th) w
  = Ok tt (after_send fe ik timestamp w).
Proof.
  intros Hfin Hklass. unfold send_event.
  rewrite (bind_Ok _ _ w w tt) by by apply assert_holds.
  rewrite (bind_Ok _ _ w w tt) by by apply assert_holds.
  rewrite (bind_Ok _ _ w w tt) by by apply assert_holds.
  rewrite (bind_Ok _ _ w w _ (codesource_run ik th w)).
  unfold after_send, intern.
  destruct (ProvenanceResolver_resolve (heap w) ik) as [url|].
  - unfold bind at 1.
    destruct (JfrSymbolTable_add url w) as [id w1|f] eqn:Eadd.
    + destruct fe as [e|]; [|done].
      rewrite (bind_Ok _ _ w1 w1 tt); [done|].
      apply assert_holds, bool_decide_eq_true. by apply Hklass.
    + unfold JfrSymbolTable_add in Eadd. by destruct (symbols w !! url).
  - rewrite (bind_Ok _ _ w w 0) by done.
    destruct fe as [e|]; [|done].
    rewrite (bind_Ok _ _ w w tt); [done|].
    apply assert_holds, bool_decide_eq_true. by apply Hklass.
Qed.

Lemma after_send_committed (fe : option FinalizerEntry.t) (ik : InstanceKlass)
    (timestamp : JfrTicks) (w : World) :
  committed (after_send fe ik timestamp w)
  = committed w
    ++ [built_event fe (Some ik) timestamp
          (intern (ProvenanceResolver_resolve (heap w) ik) w).1].
Proof.
  unfold after_send, commit. cbn.
  by destruct (intern_preserved (ProvenanceResolver_resolve (heap w) ik) w)
    as (_ & -> & _).
Qed.

Lemma after_send_preserved (fe : option FinalizerEntry.t) (ik : InstanceKlass)
    (timestamp : JfrTicks) (w : World) :
  preserved w (after_send fe ik timestamp w)
  /\ clock_reads (after_send fe ik timestamp w) = clock_reads w.
Proof.
  unfold after_send, commit. cbn.
  destruct (intern_preserved (ProvenanceResolver_resolve (heap w) ik) w)
    as (Hp & _ & Hc).
  split; [|done]. exact Hp.
Qed.

Lemma after_send_symbols (fe : option FinalizerEntry.t) (ik : InstanceKlass)
    (timestamp : JfrTicks) (w : World) (url : string) :
  ProvenanceResolver_resolve (heap w) ik = Some url ->
  symbols (after_send fe ik timestamp w) !! url
  = Some (intern (Some url) w).1.
Proof.
  intros E. unfold after_send, commit. cbn. rewrite E. apply intern_some.
Qed.

Lemma preserved_refl (w : World) : preserved w w.
Proof. by unfold preserved. Qed.

Lemma preserved_trans (w1 w2 w3 : World) :
  preserved w1 w2 -> preserved w2 w3 -> preserved w1 w3.
Proof.
  unfold preserved. intros (?&?&?&?&?) (?&?&?&?&?).
  repeat split; congruence.
Qed.

Lemma do_entry_run (fec : FinalizerEventClosure) (th : Thread)
    (fe : FinalizerEntry.t) (w : World) :
  _thread fec = Some th ->
  entry_valid fe = true ->
  exists ik, FinalizerEntry.klass fe = Some ik
    /\ do_entry fec (Some fe) w
       = Ok true (after_send (Some fe) ik (_timestamp fec) w).
Proof.
  intros Hth Hv. unfold entry_valid in Hv.
  destruct (FinalizerEntry.klass fe) as [ik|] eqn:Ek; [|done].
  exists ik. split; [done|].
  cbn [do_entry FinalizerEventClosure_closure].
  unfold FinalizerEventClosure_do_entry.
  rewrite (bind_Ok _ _ w w tt) by by apply assert_holds.
  rewrite (bind_Ok _ _ w w fe) by done.
  rewrite Ek, Hth.
  rewrite (bind_Ok _ _ w _ tt (send_event_run (Some fe) ik _ th w Hv
             ltac:(by intros ? [= <-]))).
  reflexivity.
Qed.

Lemma do_scan_run (fec : FinalizerEventClosure) (th : Thread)
    (entries : list FinalizerEntry.t) :
  _thread fec = Some th ->
  Forall (fun fe => entry_valid fe = true) entries ->
  forall w, exists w' evs,
    do_scan fec entries w = Ok tt w'
    /\ committed w' = committed w ++ evs
    /\ Forall2 (sweep_event (heap w) (_timestamp fec)) entries evs
    /\ preserved w w'
    /\ clock_reads w' = clock_reads w.
Proof.
  intros Hth. induction 1 as [|fe rest Hv _ IH]; intros w.
  - exists w, []. cbn. rewrite app_nil_r.
    repeat split; auto using preserved_refl.
  - destruct (do_entry_run fec th fe w Hth Hv) as (ik & Ek & Hrun).
    set (w1 := after_send (Some fe) ik (_timestamp fec) w) in *.
    destruct (IH w1) as (w' & evs & Hscan & Hcom & Hall & Hpre & Hclk).
    destruct (after_send_preserved (Some fe) ik (_timestamp fec) w)
      as (Hp1 & Hc1). fold w1 in Hp1, Hc1.
    exists w', (built_event (Some fe) (Some ik) (_timestamp fec)
                  (intern (ProvenanceResolver_resolve (heap w) ik) w).1 :: evs).
    split; [|split; [|split; [|split]]].
    + cbn [do_scan]. by rewrite (bind_Ok _ _ w w1 true Hrun).
    + rewrite Hcom. unfold w1. rewrite after_send_committed.
      by rewrite <- app_assoc.
    + constructor.
      * split; [done|]. split; [by rewrite <- Ek|].
        intros ik' Ek' Hnone. rewrite Ek in Ek'. injection Ek' as <-.
        by rewrite Hnone.
      * destruct Hp1 as (_ & _ & <- & _). exact Hall.
    + by eapply preserved_trans.
    + congruence.
Qed.

(** *** Completed calls, whatever the arguments *)

Lemma bind_inv {A B} (m : VM A) (k : A -> VM B) (w w' : World) (b : B) :
  bind m k w = Ok b w' -> exists a w1, m w = Ok a w1 /\ k a w1 = Ok b w'.
Proof. unfold bind. destruct (m w) as [a w1|f]; [eauto|done]. Qed.

Lemma assert_inv (c : bool) (msg : string) (w w' : World) (u : unit) :
  assert c msg w = Ok u w' -> w' = w.
Proof. unfold assert. by destruct (_ && _); intros [= _ ->]. Qed.

Lemma oop_klass_inv (o : oop) (w w' : World) (k : Klass) :
  oop_klass o w = Ok k w' -> w' = w.
Proof. unfold oop_klass, bind, deref. destruct o; [|done]. by intros [= _ ->]. Qed.

Ltac vm_pure :=
  repeat match goal with
  | H : assert _ _ _ = Ok _ _ |- _ => apply assert_inv in H; subst
  | H : oop_klass _ _ = Ok _ _ |- _ => apply oop_klass_inv in H; subst
  | H : deref ?p _ = Ok _ _ |- _ => unfold deref in H; destruct p; simplify_eq
  | H : JfrJavaSupport_get_field _ _ _ = Ok _ _ |- _ =>
      unfold JfrJavaSupport_get_field in H; simplify_eq
  | H : JfrJavaSupport_c_str ?o _ _ = Ok _ _ |- _ =>
      unfold JfrJavaSupport_c_str, bind, deref in H; destruct o; simplify_eq
  | H : java_lang_Class_protection_domain _ _ = Ok _ _ |- _ =>
      unfold java_lang_Class_protection_domain in H; simplify_eq
  | H : ret _ _ = Ok _ _ |- _ => unfold ret in H; simplify_eq
  end.

Ltac vm_inv H :=
  let H1 := fresh "Hstep" in
  apply bind_inv in H as (? & ? & H1 & H); vm_pure.

Lemma get_codesource_inv (pd : oop) (th : option Thread) (w w' : World) (r : oop) :
  get_codesource pd th w = Ok r w' -> w' = w.
Proof.
  unfold get_codesource. intros H. do 3 vm_inv H. by vm_pure.
Qed.

Lemma get_locationNoFragString_inv (cs : oop) (th : option Thread)
    (w w' : World) (r : option string) :
  get_locationNoFragString cs th w = Ok r w' -> w' = w.
Proof.
  unfold get_locationNoFragString. intros H. do 4 vm_inv H.
  destruct (negb (is_null _)); by vm_pure.
Qed.

Lemma codesource_inv (ik : option InstanceKlass) (th : option Thread)
    (w w' : World) (r : option string) :
  codesource ik th w = Ok r w' -> w' = w.
Proof.
  unfold codesource. intros H. do 4 vm_inv H.
  destruct (is_null _); [by vm_pure|].
  vm_inv H.
  match goal with
  | H1 : get_codesource _ _ _ = Ok _ _ |- _ => apply get_codesource_inv in H1; subst
  end.
  destruct (negb (is_null _)); [by eapply get_locationNoFragString_inv|].
  by vm_pure.
Qed.

Lemma commit_inv (e : EventFinalizer.t) (w w' : World) (u : unit) :
  commit e w = Ok u w' ->
  committed w' = committed w ++ [e]
  /\ clock_reads w' = clock_reads w /\ preserved w w'.
Proof. unfold commit. intros [= _ <-]. by unfold preserved. Qed.

Lemma intern_inv (url : option string) (w w' : World) (id : traceid) :
  match url with
  | Some s => JfrSymbolTable_add s
  | None => ret 0
  end w = Ok id w' ->
  preserved w w' /\ committed w' = committed w
  /\ clock_reads w' = clock_reads w.
Proof.
  intros H. pose proof (intern_preserved url w) as Hi. unfold intern in Hi.
  destruct url as [s|].
  - by rewrite H in Hi.
  - vm_pure. auto using preserved_refl.
Qed.

Lemma send_event_inv (fe : option FinalizerEntry.t) (ik : option InstanceKlass)
    (timestamp : JfrTicks) (th : option Thread) (w w' : World) (u : unit) :
  send_event fe ik timestamp th w = Ok u w' ->
  exists e, committed w' = committed w ++ [e]
    /\ EventFinalizer.endtime e = timestamp
    /\ clock_reads w' = clock_reads w
    /\ preserved w w'.
Proof.
  unfold send_event. intros H. do 4 vm_inv H.
  match goal with
  | H1 : codesource _ _ _ = Ok _ _ |- _ => apply codesource_inv in H1; subst
  end.
  apply bind_inv in H as (id & w1 & Hadd & H).
  apply intern_inv in Hadd as (Hp & Hc & Hk).
  destruct fe as [e|]; [vm_inv H|];
    apply commit_inv in H as (Hc' & Hk' & Hp');
    eexists; (split; [by rewrite Hc', Hc|]);
    (split; [reflexivity|]); (split; [congruence|]);
    by eapply preserved_trans.
Qed.

Lemma do_entry_inv (fec : FinalizerEventClosure) (fe : option FinalizerEntry.t)
    (w w' : World) (b : bool) :
  do_entry fec fe w = Ok b w' ->
  b = true
  /\ exists e, committed w' = committed w ++ [e]
       /\ EventFinalizer.endtime e = _timestamp fec
       /\ clock_reads w' = clock_reads w
       /\ preserved w w'.
Proof.
  cbn [do_entry FinalizerEventClosure_closure].
  unfold FinalizerEventClosure_do_entry. intros H. do 2 vm_inv H.
  apply bind_inv in H as (? & w1 & Hsend & H). vm_pure.
  split; [done|]. by eapply send_event_inv.
Qed.

Lemma do_scan_inv (fec : FinalizerEventClosure) (entries : list FinalizerEntry.t) :
  forall (w w' : World) (u : unit),
  do_scan fec entries w = Ok u w' ->
  exists evs, committed w' = committed w ++ evs
    /\ Forall (fun e => EventFinalizer.endtime e = _timestamp fec) evs
    /\ clock_reads w' = clock_reads w
    /\ preserved w w'.
Proof.
  induction entries as [|fe rest IH]; intros w w' u H.
  - injection H as _ <-. exists []. rewrite app_nil_r.
    auto using preserved_refl.
  - cbn [do_scan] in H. vm_inv H.
    apply do_entry_inv in Hstep as (-> & e & Hc & He & Hk & Hp).
    apply IH in H as (evs & Hc' & Hall & Hk' & Hp').
    exists (e :: evs). rewrite Hc', Hc, <- app_assoc.
    split; [done|]. split; [by constructor|]. split; [congruence|].
    by eapply preserved_trans.
Qed.

(** *** The two entry points *)

Lemma generate_events_unfold (w : World) :
  generate_events w
  = do_scan (mkClosure (Some (current w)) (ticks w (clock_reads w)))
            (finalizer_table w) (after_now w).
Proof. reflexivity. Qed.

Lemma entry_of_klass (w : World) (ik : InstanceKlass) (fe : FinalizerEntry.t) :
  entry_of w ik = Some fe ->
  FinalizerEntry.klass fe = Some ik /\ fe ∈ finalizer_table w.
Proof.
  unfold entry_of. intros H. apply find_some in H as [Hin Hk].
  split; [by apply bool_decide_eq_true in Hk|by apply list_elem_of_In].
Qed.

Lemma send_unload_event_run (w : World) (ik : InstanceKlass) :
  has_finalizer ik = true ->
  send_unload_event (Some ik) w
  = Ok tt (after_send (entry_of w ik) ik (ticks w (clock_reads w)) (after_now w)).
Proof.
  intros Hfin. unfold send_unload_event.
  rewrite (bind_Ok _ _ w w tt) by by apply assert_holds.
  rewrite (bind_Ok _ _ w w tt) by by apply assert_holds.
  rewrite (bind_Ok _ _ w w (Some (current w))) by done.
  rewrite (bind_Ok _ _ w w (entry_of w ik)) by done.
  rewrite (bind_Ok _ _ w (after_now w) (ticks w (clock_reads w))) by done.
  apply send_event_run; [done|].
  intros e He. by apply (entry_of_klass (after_now w)) in He as [? _].
Qed.

Lemma generate_events_run (w : World) :
  table_valid w ->
  exists w' evs,
    generate_events w = Ok tt w'
    /\ committed w' = committed w ++ evs
    /\ Forall2 (sweep_event (heap w) (ticks w (clock_reads w)))
               (finalizer_table w) evs
    /\ preserved w w'
    /\ clock_reads w' = S (clock_reads w).
Proof.
  intros Hv. rewrite generate_events_unfold.
  destruct (do_scan_run (mkClosure (Some (current w)) (ticks w (clock_reads w)))
              (current w) (finalizer_table w) eq_refl Hv (after_now w))
    as (w' & evs & Hrun & Hc & Hall & Hp & Hk).
  by exists w', evs.
Qed.

Lemma generate_events_inv (w w' : World) (u : unit) :
  generate_events w = Ok u w' ->
  exists evs, committed w' = committed w ++ evs
    /\ Forall (fun e => EventFinalizer.endtime e = ticks w (clock_reads w)) evs
    /\ clock_reads w' = S (clock_reads w)
    /\ preserved w w'.
Proof.
  rewrite generate_events_unfold. intros H.
  apply do_scan_inv in H as (evs & Hc & Hall & Hk & Hp). by exists evs.
Qed.


(** ** The properties of the specification *)

(** C1. A sweep over a table of N tracking entries (each of a klass with a
    finalizer, as [send_event] requires) completes and commits exactly N
    events, one per entry in the order of the traversal; the clock is read
    once, before the traversal, every event carries that one timestamp, and
    each event carries the klass and the registered, enqueued and finalized
    counters of its entry. *)
Theorem generate_events_one_event_per_entry (w : World) :
  table_valid w ->
  exists w' evs,
    generate_events w = Ok tt w'
    /\ committed w' = committed w ++ evs
    /\ length evs = length (finalizer_table w)
    /\ clock_reads w' = S (clock_reads w)
    /\ Forall2 (fun fe e =>
                  EventFinalizer.endtime e = ticks w (clock_reads w)
                  /\ carries_entry fe e)
               (finalizer_table w) evs.
Proof.
  intros Hv.
  destruct (generate_events_run w Hv) as (w' & evs & Hrun & Hc & Hall & _ & Hk).
  exists w', evs. repeat split; try done.
  - symmetry. by eapply Forall2_length.
  - eapply Forall2_impl; [exact Hall|].
    by intros fe e (? & ? & _).
Qed.

(** C2. For a non-null klass with a finalizer whose tracking entry is
    present at call time, the unload path completes and commits exactly one
    event, whose registered, enqueued and finalized fields are the three
    counters of that entry. *)
Theorem send_unload_event_carries_entry (w : World) (ik : InstanceKlass)
    (fe : FinalizerEntry.t) :
  has_finalizer ik = true ->
  entry_of w ik = Some fe ->
  exists w' e,
    send_unload_event (Some ik) w = Ok tt w'
    /\ committed w' = committed w ++ [e]
    /\ EventFinalizer.registered e = FinalizerEntry.registered fe
    /\ EventFinalizer.enqueued e = FinalizerEntry.enqueued fe
    /\ EventFinalizer.finalized e = FinalizerEntry.finalized fe.
Proof.
  intros Hfin Hfe. eexists _, _.
  split; [by apply send_unload_event_run|].
  rewrite after_send_committed, Hfe. by cbn.
Qed.

(** C3. For a klass whose lookup finds no tracking entry, the unload path
    does not fail: it completes, commits exactly one event, and the
    registered, enqueued and finalized counters of that event are zero. *)
Theorem send_unload_event_missing_entry (w : World) (ik : InstanceKlass) :
  has_finalizer ik = true ->
  entry_of w ik = None ->
  exists w' e,
    send_unload_event (Some ik) w = Ok tt w'
    /\ committed w' = committed w ++ [e]
    /\ zero_counters e.
Proof.
  intros Hfin Hnone. eexists _, _.
  split; [by apply send_unload_event_run|].
  rewrite after_send_committed, Hnone. by cbn.
Qed.

(** C5. For every klass, the resolver [codesource] completes without
    changing the state and returns what the specified algorithm returns:
    NULL exactly when the protection domain is absent, or its code source is
    absent, or the location string of the code source yields no value, and
    otherwise that location string. *)
Theorem codesource_resolves (w : World) (ik : InstanceKlass) (th : Thread) :
  let pd := protection_context (heap w) ik in
  let cs := code_source_of (heap w) pd in
  let loc := location_string (heap w) cs in
  exists url,
    codesource (Some ik) (Some th) w = Ok url w
    /\ url = ProvenanceResolver_resolve (heap w) ik
    /\ (url = None <-> pd = None \/ cs = None \/ loc = None)
    /\ (url <> None -> url = loc).
Proof.
  intros pd cs loc. eexists. split; [apply codesource_run|].
  split; [done|].
  unfold ProvenanceResolver_resolve. subst loc cs pd.
  assert (forall P : Prop, P -> ((None : option string) = None <-> P)
            /\ ((None : option string) <> None -> None = (None : option string)))
    as Hnone by (intros P HP; by split; [split|]).
  destruct (protection_context (heap w) ik) as [pd|]; [|apply Hnone; auto].
  destruct (code_source_of (heap w) (Some pd)) as [cs|]; [|apply Hnone; auto].
  destruct (location_string (heap w) (Some cs)) as [url|]; [|apply Hnone; auto].
  split; [|done]. split; [done|]. by intros [?|[?|?]].
Qed.

(** C10. The helpers of the resolver are called with non-null arguments
    only. A NULL object stops [get_codesource] and
    [get_locationNoFragString] in every build (on the entry assertion in a
    debug build, on the dereference otherwise) and stops the conversion
    [JfrJavaSupport::c_str]; on non-null objects the two helpers complete,
    whatever the objects hold. The resolver [codesource] on a non-null
    klass and thread completes on every state, so none of its calls passes
    NULL: it answers NULL itself at each of its three guards (no protection
    domain, no code source, no string oop), and in the one remaining case
    its result is that of the conversion of the non-null string oop. *)
Theorem codesource_helper_preconditions (w : World) (ik : InstanceKlass)
    (th : Thread) :
  get_codesource None (Some th) w
    = Crash (if ASSERT w then assertion_failure "invariant" else null_dereference)
  /\ get_locationNoFragString None (Some th) w
    = Crash (if ASSERT w then assertion_failure "invariant" else null_dereference)
  /\ JfrJavaSupport_c_str None (Some th) w = Crash null_dereference
  /\ (forall pd, exists cs, get_codesource (Some pd) (Some th) w = Ok cs w)
  /\ (forall cs, exists s, get_locationNoFragString (Some cs) (Some th) w = Ok s w)
  /\ exists url,
       codesource (Some ik) (Some th) w = Ok url w
       /\ match protection_context (heap w) ik with
          | None => url = None
          | Some pd =>
            match code_source_of (heap w) (Some pd) with
            | None => url = None
            | Some cs =>
              match read_object_field (heap w) (Some cs) "locationNoFragString"
                                      "Ljava/lang/String;" with
              | None => url = None
              | Some str => JfrJavaSupport_c_str (Some str) (Some th) w = Ok url w
              end
            end
          end.
Proof.
  split; [|split; [|split; [|split; [|split]]]].
  - unfold get_codesource, oop_klass, bind, assert, deref.
    destruct (ASSERT w) eqn:E; cbn; by rewrite ?E.
  - unfold get_locationNoFragString, oop_klass, bind, assert, deref.
    destruct (ASSERT w) eqn:E; cbn; by rewrite ?E.
  - reflexivity.
  - intros pd. eexists. apply get_codesource_run.
  - intros cs. eexists. apply get_locationNoFragString_run.
  - eexists. split; [apply codesource_run|].
    unfold ProvenanceResolver_resolve.
    destruct (protection_context (heap w) ik) as [pd|]; [|done].
    destruct (code_source_of (heap w) (Some pd)) as [cs|]; [|done].
    unfold location_string.
    destruct (read_object_field (heap w) (Some cs) _ _) as [str|]; [|done].
    cbn. by destruct (obj_chars _).
Qed.

(** C4, as amended. For a klass with no tracking entry, the unload path
    completes and commits exactly one event with the three counters zero.
    Its provenance is resolved from the klass whether or not there is an
    entry: the code-source identifier is 0 when the resolver yields none,
    and otherwise it is the identifier under which the resolved location is
    interned in the symbol table. *)
Theorem send_unload_event_missing_entry_provenance (w : World)
    (ik : InstanceKlass) :
  has_finalizer ik = true ->
  entry_of w ik = None ->
  exists w' e,
    send_unload_event (Some ik) w = Ok tt w'
    /\ committed w' = committed w ++ [e]
    /\ zero_counters e
    /\ match ProvenanceResolver_resolve (heap w) ik with
       | None => EventFinalizer.codeSource e = 0
       | Some url => symbols w' !! url = Some (EventFinalizer.codeSource e)
       end.
Proof.
  intros Hfin Hnone. eexists _, _.
  split; [by apply send_unload_event_run|].
  rewrite after_send_committed, Hnone.
  split; [done|]. split; [by cbn|].
  change (heap (after_now w)) with (heap w).
  destruct (ProvenanceResolver_resolve (heap w) ik) as [url|] eqn:E; [|done].
  rewrite (after_send_symbols None ik _ (after_now w) url E). by cbn.
Qed.

(** C6. In a sweep over entries of klasses with a finalizer, an entry whose
    provenance resolves to none still gets its event, committed at the
    entry's place in the traversal with code-source identifier 0, and the
    traversal goes on to the remaining entries: there is one event per
    entry, and whenever the callback [do_entry] returns, it returns
    true. *)
Theorem sweep_keeps_entries_without_provenance (w : World) :
  table_valid w ->
  exists w' evs,
    generate_events w = Ok tt w'
    /\ committed w' = committed w ++ evs
    /\ Forall2 (fun fe e =>
                  EventFinalizer.overridingClass e = FinalizerEntry.klass fe
                  /\ forall ik, FinalizerEntry.klass fe = Some ik ->
                       ProvenanceResolver_resolve (heap w) ik = None ->
                       EventFinalizer.codeSource e = 0)
               (finalizer_table w) evs
    /\ forall (fec : FinalizerEventClosure) fe w0 w1 b,
         do_entry fec fe w0 = Ok b w1 -> b = true.
Proof.
  intros Hv.
  destruct (generate_events_run w Hv) as (w' & evs & Hrun & Hc & Hall & _ & _).
  exists w', evs. split; [done|]. split; [done|]. split.
  - eapply Forall2_impl; [exact Hall|].
    intros fe e (_ & (Hk & _) & Hsrc). by split.
  - intros fec fe w0 w1 b H. by apply do_entry_inv in H as [-> _].
Qed.

(** C7. A sweep only reads the tracking table: after any completed sweep
    the table holds the same entries, with the same klass and the same
    registered, enqueued and finalized counters, in the same order; the
    Java heap is left as it was too. *)
Theorem generate_events_read_only (w w' : World) :
  generate_events w = Ok tt w' ->
  finalizer_table w' = finalizer_table w /\ heap w' = heap w.
Proof.
  intros H. apply generate_events_inv in H as (_ & _ & _ & _ & Hp).
  by destruct Hp as (_ & _ & ? & ? & _).
Qed.

(** C9. Every committed event whose counters were read from an entry with
    [0 <= finalized <= enqueued <= registered] has
    [0 <= finalized <= enqueued <= registered] itself, on either path. The
    unload path reads one entry, the one its lookup returns: if that entry
    is ordered, or if there is none (the counters are then all zero), the
    one event it commits is ordered, whatever the other entries of the
    table hold. A sweep reads every entry: each event is ordered whenever
    its own entry is, so all of them are when the whole table is. *)
Theorem committed_counters_ordered (w : World) :
  (forall ik,
     has_finalizer ik = true ->
     (forall fe, entry_of w ik = Some fe -> entry_counters_ordered fe) ->
     exists w' e,
       send_unload_event (Some ik) w = Ok tt w'
       /\ committed w' = committed w ++ [e]
       /\ event_counters_ordered e)
  /\ (table_valid w ->
      exists w' evs,
        generate_events w = Ok tt w'
        /\ committed w' = committed w ++ evs
        /\ Forall2 (fun fe e => entry_counters_ordered fe ->
                                event_counters_ordered e)
                   (finalizer_table w) evs
        /\ (Forall entry_counters_ordered (finalizer_table w) ->
            Forall event_counters_ordered evs)).
Proof.
  split.
  - intros ik Hfin Hord. eexists _, _.
    split; [by apply send_unload_event_run|].
    rewrite after_send_committed. split; [done|].
    destruct (entry_of w ik) as [fe|] eqn:Hfe.
    + exact (Hord fe eq_refl).
    + unfold event_counters_ordered. cbn. lia.
  - intros Hv.
    destruct (generate_events_run w Hv) as (w' & evs & Hrun & Hc & Hall & _ & _).
    exists w', evs. split; [done|]. split; [done|].
    assert (Forall2 (fun fe e => entry_counters_ordered fe ->
                                 event_counters_ordered e)
                    (finalizer_table w) evs) as Hper.
    { eapply Forall2_impl; [exact Hall|].
      intros fe e (_ & (_ & Hr & Hq & Hf) & _) Hord.
      unfold event_counters_ordered, entry_counters_ordered in *.
      by rewrite Hr, Hq, Hf. }
    split; [exact Hper|].
    clear Hrun Hc Hall Hv. intros Hord.
    induction Hper as [|fe e l k He _ IH]; [constructor|].
    apply Forall_cons in Hord as [Hfe Hrest].
    constructor; [by apply He|by apply IH].
Qed.

(** ** The properties at the concrete state *)

Lemma world0_table_valid : table_valid world0.
Proof. unfold table_valid. cbn. by repeat constructor. Defined.

Lemma world0_sweep : generate_events world0 = Ok tt world1.
Proof. vm_compute. reflexivity. Defined.

(** C1 at [world0]: three entries, three events. *)
Lemma generate_events_one_event_per_entry_witness :
  table_valid world0
  /\ exists w' evs,
       generate_events world0 = Ok tt w'
       /\ committed w' = committed world0 ++ evs
       /\ length evs = length (finalizer_table world0)
       /\ clock_reads w' = S (clock_reads world0)
       /\ Forall2 (fun fe e =>
                     EventFinalizer.endtime e = ticks world0 (clock_reads world0)
                     /\ carries_entry fe e)
                  (finalizer_table world0) evs.
Proof.
  split; [exact world0_table_valid|].
  exact (generate_events_one_event_per_entry world0 world0_table_valid).
Defined.

(** C2 at [world0]: the entry (5, 3, 2) of [klass_A]. *)
Lemma send_unload_event_carries_entry_witness :
  entry_of world0 klass_A = Some entry_A
  /\ exists w' e,
       send_unload_event (Some klass_A) world0 = Ok tt w'
       /\ committed w' = committed world0 ++ [e]
       /\ EventFinalizer.registered e = 5
       /\ EventFinalizer.enqueued e = 3
       /\ EventFinalizer.finalized e = 2.
Proof.
  split; [reflexivity|].
  exact (send_unload_event_carries_entry world0 klass_A entry_A eq_refl eq_refl).
Defined.

(** C3 at [world0]: [klass_C] has no entry. *)
Lemma send_unload_event_missing_entry_witness :
  entry_of world0 klass_C = None
  /\ exists w' e,
       send_unload_event (Some klass_C) world0 = Ok tt w'
       /\ committed w' = committed world0 ++ [e]
       /\ zero_counters e.
Proof.
  split; [reflexivity|].
  exact (send_unload_event_missing_entry world0 klass_C eq_refl eq_refl).
Defined.

(** C4 as stated fails: [klass_C] has no tracking entry in [world0], yet its
    location resolves, and the one event of the unload path carries the
    identifier 2 of that location, not 0. *)
Lemma send_unload_event_missing_entry_has_provenance :
  ~ (forall (w : World) (ik : InstanceKlass),
       has_finalizer ik = true ->
       entry_of w ik = None ->
       exists w' e,
         send_unload_event (Some ik) w = Ok tt w'
         /\ committed w' = committed w ++ [e]
         /\ zero_counters e
         /\ EventFinalizer.codeSource e = 0).
Proof.
  intros Hclaim.
  destruct (Hclaim world0 klass_C eq_refl eq_refl)
    as (w' & e & Hrun & Hc & _ & Hid).
  rewrite send_unload_event_run in Hrun by reflexivity.
  injection Hrun as <-.
  rewrite after_send_committed in Hc.
  apply app_inv_head in Hc. injection Hc as <-.
  vm_compute in Hid. discriminate Hid.
Qed.

(** C4 as amended at [world0]: the event of [klass_C] carries the
    identifier of its location. *)
Lemma send_unload_event_missing_entry_provenance_witness :
  entry_of world0 klass_C = None
  /\ exists w' e,
       send_unload_event (Some klass_C) world0 = Ok tt w'
       /\ committed w' = committed world0 ++ [e]
       /\ zero_counters e
       /\ match ProvenanceResolver_resolve (heap world0) klass_C with
          | None => EventFinalizer.codeSource e = 0
          | Some url => symbols w' !! url = Some (EventFinalizer.codeSource e)
          end.
Proof.
  split; [reflexivity|].
  exact (send_unload_event_missing_entry_provenance world0 klass_C eq_refl eq_refl).
Defined.

(** C6 at [world0]: [klass_B] has no protection domain and is followed by
    another entry. *)
Lemma sweep_keeps_entries_without_provenance_witness :
  table_valid world0
  /\ ProvenanceResolver_resolve (heap world0) klass_B = None
  /\ exists w' evs,
       generate_events world0 = Ok tt w'
       /\ committed w' = committed world0 ++ evs
       /\ Forall2 (fun fe e =>
                     EventFinalizer.overridingClass e = FinalizerEntry.klass fe
                     /\ forall ik, FinalizerEntry.klass fe = Some ik ->
                          ProvenanceResolver_resolve (heap world0) ik = None ->
                          EventFinalizer.codeSource e = 0)
                  (finalizer_table world0) evs
       /\ forall (fec : FinalizerEventClosure) fe w0 w1 b,
            do_entry fec fe w0 = Ok b w1 -> b = true.
Proof.
  split; [exact world0_table_valid|]. split; [reflexivity|].
  exact (sweep_keeps_entries_without_provenance world0 world0_table_valid).
Defined.

(** C7 at [world0]. *)
Lemma generate_events_read_only_witness :
  generate_events world0 = Ok tt world1
  /\ finalizer_table world1 = finalizer_table world0
  /\ heap world1 = heap world0.
Proof.
  split; [exact world0_sweep|].
  exact (generate_events_read_only world0 world1 world0_sweep).
Defined.

(** C9 at [world_unordered], whose second entry (1, 2, 3) is out of order:
    the unload events of [klass_A], whose entry is ordered, and of
    [klass_C], which has no entry, are ordered, and so is the first event
    of a sweep. *)
Lemma committed_counters_ordered_witness :
  (exists w' e,
     send_unload_event (Some klass_A) world_unordered = Ok tt w'
     /\ committed w' = committed world_unordered ++ [e]
     /\ event_counters_ordered e)
  /\ (exists w' e,
       send_unload_event (Some klass_C) world_unordered = Ok tt w'
       /\ committed w' = committed world_unordered ++ [e]
       /\ event_counters_ordered e)
  /\ (exists w' evs,
       generate_events world_unordered = Ok tt w'
       /\ committed w' = committed world_unordered ++ evs
       /\ Forall2 (fun fe e => entry_counters_ordered fe ->
                               event_counters_ordered e)
                  (finalizer_table world_unordered) evs
       /\ (Forall entry_counters_ordered (finalizer_table world_unordered) ->
           Forall event_counters_ordered evs)).
Proof.
  destruct (committed_counters_ordered world_unordered) as [Hunload Hsweep].
  split; [|split].
  - apply (Hunload klass_A eq_refl).
    intros fe [= <-]. unfold entry_counters_ordered. cbn. lia.
  - apply (Hunload klass_C eq_refl). intros fe Hfe. discriminate Hfe.
  - apply Hsweep. unfold table_valid. cbn. by repeat constructor.
Defined.

(** C5 at [world0]: the location of [klass_A] resolves, that of [klass_B]
    does not. *)
Lemma codesource_resolves_witness :
  (exists url,
     codesource (Some klass_A) (Some 1%positive) world0 = Ok url world0
     /\ url = ProvenanceResolver_resolve (heap world0) klass_A
     /\ (url = None <->
         protection_context (heap world0) klass_A = None
         \/ code_source_of (heap world0)
              (protection_context (heap world0) klass_A) = None
         \/ location_string (heap world0)
              (code_source_of (heap world0)
                 (protection_context (heap world0) klass_A)) = None)
     /\ (url <> None ->
         url = location_string (heap world0)
                 (code_source_of (heap world0)
                    (protection_context (heap world0) klass_A))))
  /\ ProvenanceResolver_resolve (heap world0) klass_A = Some "file:/app.jar"%string
  /\ ProvenanceResolver_resolve (heap world0) klass_B = None.
Proof.
  split; [|split; reflexivity].
  exact (codesource_resolves world0 klass_A 1%positive).
Defined.

(** ** Further properties of the code *)

(** *** Faults on NULL and unchecked preconditions *)

Lemma assert_off (c : bool) (msg : string) (w : World) :
  ASSERT w = false -> assert c msg w = Ok tt w.
Proof. unfold assert. by intros ->. Qed.

Lemma assert_fails (msg : string) (w : World) :
  ASSERT w = true -> assert false msg w = Crash (assertion_failure msg).
Proof. unfold assert. by intros ->. Qed.

Lemma send_event_product (fe : option FinalizerEntry.t) (ik : InstanceKlass)
    (timestamp : JfrTicks) (th : Thread) (w : World) :
  ASSERT w = false ->
  send_event fe (Some ik) timestamp (Some th) w
  = Ok tt (after_send fe ik timestamp w).
Proof.
  intros Hoff. unfold send_event.
  rewrite (bind_Ok _ _ w w tt) by by apply assert_off.
  rewrite (bind_Ok _ _ w w tt) by by apply assert_off.
  rewrite (bind_Ok _ _ w w tt) by by apply assert_off.
  rewrite (bind_Ok _ _ w w _ (codesource_run ik th w)).
  unfold after_send.
  pose proof (intern_preserved (ProvenanceResolver_resolve (heap w) ik) w)
    as ((HA & _) & _).
  revert HA. unfold intern.
  destruct (ProvenanceResolver_resolve (heap w) ik) as [url|].
  - unfold bind at 1.
    destruct (JfrSymbolTable_add url w) as [id w1|f] eqn:Eadd.
    + cbn [snd fst]. intros HA. destruct fe as [e|]; [|done].
      rewrite (bind_Ok _ _ w1 w1 tt); [done|].
      apply assert_off. congruence.
    + unfold JfrSymbolTable_add in Eadd. by destruct (symbols w !! url).
  - intros _. rewrite (bind_Ok _ _ w w 0) by done.
    destruct fe as [e|]; [|done].
    rewrite (bind_Ok _ _ w w tt); [done|]. by apply assert_off.
Qed.

(** X2. The precondition [ik->has_finalizer()] of the unload path is checked
    in debug builds only: for a klass without a finalizer a debug build
    stops on the assertion, while a product build completes and commits one
    event for that klass, with the counters of its entry or zeros. *)
Theorem send_unload_event_without_finalizer (w : World) (ik : InstanceKlass) :
  has_finalizer ik = false ->
  (ASSERT w = true ->
   send_unload_event (Some ik) w = Crash (assertion_failure "invariant"))
  /\ (ASSERT w = false ->
      exists w' e,
        send_unload_event (Some ik) w = Ok tt w'
        /\ committed w' = committed w ++ [e]
        /\ EventFinalizer.overridingClass e = Some ik
        /\ match entry_of w ik with
           | Some fe => carries_entry fe e
           | None => zero_counters e
           end).
Proof.
  intros Hfin. split; intros HA.
  - unfold send_unload_event.
    rewrite (bind_Ok _ _ w w tt) by by apply assert_holds.
    apply bind_Crash. cbn [from_option]. rewrite Hfin. by apply assert_fails.
  - eexists _, _. split.
    + unfold send_unload_event.
      rewrite (bind_Ok _ _ w w tt) by by apply assert_off.
      rewrite (bind_Ok _ _ w w tt) by by apply assert_off.
      rewrite (bind_Ok _ _ w w (Some (current w))) by done.
      rewrite (bind_Ok _ _ w w (entry_of w ik)) by done.
      rewrite (bind_Ok _ _ w (after_now w) (ticks w (clock_reads w))) by done.
      by apply send_event_product.
    + rewrite after_send_committed. split; [done|].
      destruct (entry_of w ik) as [fe|] eqn:Hfe; [|by cbn].
      apply entry_of_klass in Hfe as [Hk _].
      split; [done|]. unfold carries_entry. by rewrite Hk.
Qed.

(** X3. [send_event] called with an entry of another klass than [ik]: a
    debug build stops on the assertion [fe->klass() == ik]; a product build
    completes and commits one event that names [ik] and carries the
    counters of the foreign entry. *)
Theorem send_event_klass_mismatch (fe : FinalizerEntry.t) (ik : InstanceKlass)
    (timestamp : JfrTicks) (th : Thread) (w : World) :
  has_finalizer ik = true ->
  FinalizerEntry.klass fe <> Some ik ->
  (ASSERT w = true ->
   send_event (Some fe) (Some ik) timestamp (Some th) w
   = Crash (assertion_failure "invariant"))
  /\ (ASSERT w = false ->
      exists w' e,
        send_event (Some fe) (Some ik) timestamp (Some th) w = Ok tt w'
        /\ committed w' = committed w ++ [e]
        /\ EventFinalizer.overridingClass e = Some ik
        /\ EventFinalizer.registered e = FinalizerEntry.registered fe
        /\ EventFinalizer.enqueued e = FinalizerEntry.enqueued fe
        /\ EventFinalizer.finalized e = FinalizerEntry.finalized fe).
Proof.
  intros Hfin Hne. split; intros HA.
  - unfold send_event.
    rewrite (bind_Ok _ _ w w tt) by by apply assert_holds.
    rewrite (bind_Ok _ _ w w tt) by by apply assert_holds.
    rewrite (bind_Ok _ _ w w tt) by by apply assert_holds.
    rewrite (bind_Ok _ _ w w _ (codesource_run ik th w)).
    pose proof (intern_preserved (ProvenanceResolver_resolve (heap w) ik) w)
      as ((HA' & _) & _).
    revert HA'. unfold intern.
    assert (bool_decide (FinalizerEntry.klass fe = Some ik) = false) as ->
      by by apply bool_decide_eq_false.
    destruct (ProvenanceResolver_resolve (heap w) ik) as [url|].
    + unfold bind at 1.
      destruct (JfrSymbolTable_add url w) as [id w1|f] eqn:Eadd.
      * cbn [snd]. intros HA'. apply bind_Crash, assert_fails. congruence.
      * unfold JfrSymbolTable_add in Eadd. by destruct (symbols w !! url).
    + intros _. rewrite (bind_Ok _ _ w w 0) by done.
      by apply bind_Crash, assert_fails.
  - eexists _, _. split; [by apply send_event_product|].
    rewrite after_send_committed. by cbn.
Qed.

(** *** Completed calls without preconditions *)

Lemma send_event_inv_built (fe : option FinalizerEntry.t)
    (ik : option InstanceKlass) (timestamp : JfrTicks) (th : option Thread)
    (w w' : World) (u : unit) :
  send_event fe ik timestamp th w = Ok u w' ->
  exists id, committed w' = committed w ++ [built_event fe ik timestamp id]
    /\ clock_reads w' = clock_reads w
    /\ preserved w w'.
Proof.
  unfold send_event. intros H. do 4 vm_inv H.
  match goal with
  | H1 : codesource _ _ _ = Ok _ _ |- _ => apply codesource_inv in H1; subst
  end.
  apply bind_inv in H as (id & w1 & Hadd & H).
  apply intern_inv in Hadd as (Hp & Hc & Hk).
  exists id.
  destruct fe as [e|]; [vm_inv H|];
    apply commit_inv in H as (Hc' & Hk' & Hp');
    (split; [by rewrite Hc', Hc|]); (split; [congruence|]);
    by eapply preserved_trans.
Qed.

Lemma do_scan_inv_built (fec : FinalizerEventClosure)
    (entries : list FinalizerEntry.t) :
  forall (w w' : World) (u : unit),
  do_scan fec entries w = Ok u w' ->
  exists evs, committed w' = committed w ++ evs
    /\ Forall2 (fun fe e => EventFinalizer.endtime e = _timestamp fec
                            /\ carries_entry fe e) entries evs.
Proof.
  induction entries as [|fe rest IH]; intros w w' u H.
  - injection H as _ <-. exists []. by rewrite app_nil_r.
  - cbn [do_scan] in H. apply bind_inv in H as (b & w1 & Hentry & H).
    pose proof (do_entry_inv _ _ _ _ _ Hentry) as [-> _].
    cbn [do_entry FinalizerEventClosure_closure] in Hentry.
    unfold FinalizerEventClosure_do_entry in Hentry.
    vm_inv Hentry.
    rewrite (bind_Ok (deref (Some fe)) _ _ _ fe eq_refl) in Hentry.
    apply bind_inv in Hentry as (? & w2 & Hsend & Hret).
    unfold ret in Hret. injection Hret as ->.
    apply send_event_inv_built in Hsend as (id & Hc & _ & _).
    apply IH in H as (evs & Hc' & Hall).
    eexists (_ :: evs). split; [by rewrite Hc', Hc, <- app_assoc|].
    constructor; [|done]. by destruct fe.
Qed.

Lemma send_unload_event_inv (ik : option InstanceKlass) (w w' : World) (u : unit) :
  send_unload_event ik w = Ok u w' ->
  exists fe id,
    FinalizerTable_lookup ik (Some (current w)) w = Ok fe w
    /\ committed w'
       = committed w ++ [built_event fe ik (ticks w (clock_reads w)) id]
    /\ clock_reads w' = S (clock_reads w)
    /\ preserved w w'.
Proof.
  unfold send_unload_event. intros H. do 2 vm_inv H.
  apply bind_inv in H as (th & w1 & Hth & H).
  unfold Thread_current in Hth. injection Hth as <- <-.
  apply bind_inv in H as (fe & w1 & Hfe & H).
  pose proof Hfe as Hfe'. unfold FinalizerTable_lookup in Hfe'.
  injection Hfe' as _ <-.
  apply bind_inv in H as (T & w1 & Hnow & H).
  unfold JfrTicks_now in Hnow. injection Hnow as <- <-.
  apply send_event_inv_built in H as (id & Hc & Hk & Hp).
  by exists fe, id.
Qed.

(** X4. Every completed sweep, in either build and whatever the table
    holds, has visited all entries: it appended one event per entry to the
    sink, in the order of the table, each with the sweep's timestamp and
    the klass and counters of its entry; the events committed before are
    still there. *)
Theorem generate_events_completed (w w' : World) :
  generate_events w = Ok tt w' ->
  exists evs,
    committed w' = committed w ++ evs
    /\ length evs = length (finalizer_table w)
    /\ Forall2 (fun fe e =>
                  EventFinalizer.endtime e = ticks w (clock_reads w)
                  /\ carries_entry fe e)
               (finalizer_table w) evs.
Proof.
  rewrite generate_events_unfold. intros H.
  apply do_scan_inv_built in H as (evs & Hc & Hall).
  exists evs. split; [done|]. split; [|done].
  symmetry. by eapply Forall2_length.
Qed.

(** X5. Every completed call of the unload path, in either build, appended
    exactly one event to the sink: it names the klass of the call, is
    stamped with the one clock reading the call made, and carries the
    counters of the entry the lookup returned, or zeros when it returned
    none. *)
Theorem send_unload_event_completed (ik : option InstanceKlass) (w w' : World) :
  send_unload_event ik w = Ok tt w' ->
  exists e,
    committed w' = committed w ++ [e]
    /\ EventFinalizer.overridingClass e = ik
    /\ EventFinalizer.endtime e = ticks w (clock_reads w)
    /\ clock_reads w' = S (clock_reads w)
    /\ match List.find (fun fe => bool_decide (FinalizerEntry.klass fe = ik))
                       (finalizer_table w) with
       | Some fe =>
         EventFinalizer.registered e = FinalizerEntry.registered fe
         /\ EventFinalizer.enqueued e = FinalizerEntry.enqueued fe
         /\ EventFinalizer.finalized e = FinalizerEntry.finalized fe
       | None => zero_counters e
       end.
Proof.
  intros H. apply send_unload_event_inv in H as (fe & id & Hfe & Hc & Hk & _).
  unfold FinalizerTable_lookup in Hfe. injection Hfe as <-.
  eexists. split; [exact Hc|].
  by destruct (List.find _ _).
Qed.

(** X6. The unload path only reads the tracking table and the heap: after
    any completed call both are as they were. *)
Theorem send_unload_event_read_only (ik : option InstanceKlass) (w w' : World) :
  send_unload_event ik w = Ok tt w' ->
  finalizer_table w' = finalizer_table w /\ heap w' = heap w.
Proof.
  intros H. apply send_unload_event_inv in H as (_ & _ & _ & _ & _ & Hp).
  by destruct Hp as (_ & _ & ? & ? & _).
Qed.

(** *** A table that breaks the precondition of [send_event] *)

Lemma do_entry_invalid (fec : FinalizerEventClosure) (fe : FinalizerEntry.t)
    (w : World) :
  ASSERT w = true ->
  entry_valid fe = false ->
  do_entry fec (Some fe) w = Crash (assertion_failure "invariant").
Proof.
  intros HA Hv. unfold entry_valid in Hv.
  cbn [do_entry FinalizerEventClosure_closure].
  unfold FinalizerEventClosure_do_entry.
  rewrite (bind_Ok _ _ w w tt) by by apply assert_holds.
  rewrite (bind_Ok _ _ w w fe) by done.
  apply bind_Crash. unfold send_event.
  destruct (FinalizerEntry.klass fe) as [ik|].
  - rewrite (bind_Ok _ _ w w tt) by by apply assert_holds.
    apply bind_Crash. cbn in Hv. cbn [from_option]. rewrite Hv.
    by apply assert_fails.
  - apply bind_Crash. by apply assert_fails.
Qed.

Lemma do_scan_invalid (fec : FinalizerEventClosure) (th : Thread)
    (entries : list FinalizerEntry.t) :
  _thread fec = Some th ->
  forall w,
  ASSERT w = true ->
  ~ Forall (fun fe => entry_valid fe = true) entries ->
  do_scan fec entries w = Crash (assertion_failure "invariant").
Proof.
  intros Hth. induction entries as [|fe rest IH]; intros w HA Hbad.
  - by destruct Hbad.
  - cbn [do_scan]. destruct (entry_valid fe) eqn:Hv.
    + destruct (do_entry_run fec th fe w Hth Hv) as (ik & _ & Hrun).
      rewrite (bind_Ok _ _ _ _ _ Hrun). apply IH.
      * destruct (after_send_preserved (Some fe) ik (_timestamp fec) w)
          as ((-> & _) & _). exact HA.
      * intros Hrest. apply Hbad. by constructor.
    + apply bind_Crash. by apply do_entry_invalid.
Qed.

(** X7. The table precondition is needed in a debug build: a sweep over a
    table that holds an entry whose klass is NULL or has no finalizer does
    not complete there, it ends in an assertion failure. *)
Theorem generate_events_invalid_table (w : World) :
  ASSERT w = true ->
  ~ table_valid w ->
  generate_events w = Crash (assertion_failure "invariant").
Proof.
  intros HA Hbad. rewrite generate_events_unfold.
  by apply (do_scan_invalid _ (current w)).
Qed.

(** X8. A sweep over an empty table completes and commits nothing; it has
    still read the clock once, for the timestamp of its closure, and it
    leaves the symbol table alone. *)
Theorem generate_events_empty_table (w : World) :
  finalizer_table w = [] ->
  exists w',
    generate_events w = Ok tt w'
    /\ committed w' = committed w
    /\ symbols w' = symbols w
    /\ symbol_id_counter w' = symbol_id_counter w
    /\ clock_reads w' = S (clock_reads w).
Proof.
  intros Hempty. exists (after_now w).
  rewrite generate_events_unfold, Hempty. by cbn.
Qed.

(** *** Code-source identifiers and the symbol table *)

Lemma intern_subseteq (url : option string) (w : World) :
  symbols w ⊆ symbols (intern url w).2.
Proof.
  unfold intern, JfrSymbolTable_add.
  destruct url as [s|]; [|done].
  destruct (symbols w !! s) eqn:E; [done|].
  cbn. by apply insert_subseteq.
Qed.

Lemma after_send_subseteq (fe : option FinalizerEntry.t) (ik : InstanceKlass)
    (timestamp : JfrTicks) (w : World) :
  symbols w ⊆ symbols (after_send fe ik timestamp w).
Proof. unfold after_send, commit. cbn. apply intern_subseteq. Qed.

Lemma do_scan_symbols (fec : FinalizerEventClosure) (th : Thread)
    (entries : list FinalizerEntry.t) :
  _thread fec = Some th ->
  Forall (fun fe => entry_valid fe = true) entries ->
  forall w, exists w' evs,
    do_scan fec entries w = Ok tt w'
    /\ committed w' = committed w ++ evs
    /\ symbols w ⊆ symbols w'
    /\ Forall2 (fun fe e =>
                  forall ik url,
                    FinalizerEntry.klass fe = Some ik ->
                    ProvenanceResolver_resolve (heap w) ik = Some url ->
                    symbols w' !! url = Some (EventFinalizer.codeSource e))
               entries evs.
Proof.
  intros Hth. induction 1 as [|fe rest Hv _ IH]; intros w.
  - exists w, []. cbn. rewrite app_nil_r. by repeat split.
  - destruct (do_entry_run fec th fe w Hth Hv) as (ik & Ek & Hrun).
    set (w1 := after_send (Some fe) ik (_timestamp fec) w) in *.
    destruct (IH w1) as (w' & evs & Hscan & Hcom & Hsub & Hall).
    destruct (after_send_preserved (Some fe) ik (_timestamp fec) w)
      as ((_ & _ & Hheap & _) & _). fold w1 in Hheap.
    exists w', (built_event (Some fe) (Some ik) (_timestamp fec)
                  (intern (ProvenanceResolver_resolve (heap w) ik) w).1 :: evs).
    split; [|split; [|split]].
    + cbn [do_scan]. by rewrite (bind_Ok _ _ w w1 true Hrun).
    + rewrite Hcom. unfold w1. rewrite after_send_committed.
      by rewrite <- app_assoc.
    + etrans; [|exact Hsub]. apply after_send_subseteq.
    + constructor.
      * intros ik' url Ek' Hurl. rewrite Ek in Ek'. injection Ek' as <-.
        eapply lookup_weaken; [|exact Hsub].
        unfold w1. rewrite (after_send_symbols _ _ _ _ url Hurl).
        by rewrite Hurl.
      * rewrite <- Hheap. exact Hall.
Qed.

Lemma generate_events_symbols (w : World) :
  table_valid w ->
  exists w' evs,
    generate_events w = Ok tt w'
    /\ committed w' = committed w ++ evs
    /\ symbols w ⊆ symbols w'
    /\ Forall2 (fun fe e =>
                  forall ik url,
                    FinalizerEntry.klass fe = Some ik ->
                    ProvenanceResolver_resolve (heap w) ik = Some url ->
                    symbols w' !! url = Some (EventFinalizer.codeSource e))
               (finalizer_table w) evs.
Proof.
  intros Hv. rewrite generate_events_unfold.
  exact (do_scan_symbols (mkClosure (Some (current w)) (ticks w (clock_reads w)))
           (current w) (finalizer_table w) eq_refl Hv (after_now w)).
Qed.

(** X9. After a sweep over entries of klasses with a finalizer, the
    code-source identifier of each event is the identifier under which the
    symbol table holds the resolved location of its klass, and every string
    interned before the sweep keeps its identifier. *)
Theorem sweep_code_source_interned (w : World) :
  table_valid w ->
  exists w' evs,
    generate_events w = Ok tt w'
    /\ committed w' = committed w ++ evs
    /\ symbols w ⊆ symbols w'
    /\ Forall2 (fun fe e =>
                  forall ik url,
                    FinalizerEntry.klass fe = Some ik ->
                    ProvenanceResolver_resolve (heap w) ik = Some url ->
                    symbols w' !! url = Some (EventFinalizer.codeSource e))
               (finalizer_table w) evs.
Proof. exact (generate_events_symbols w). Qed.

(** X10. When the resolver yields none for the klass, the unload path does
    not call [JfrSymbolTable::add]: the event carries code-source
    identifier 0 and the symbol table and its counter are as before. *)
Theorem send_unload_event_no_provenance (w : World) (ik : InstanceKlass) :
  has_finalizer ik = true ->
  ProvenanceResolver_resolve (heap w) ik = None ->
  exists w' e,
    send_unload_event (Some ik) w = Ok tt w'
    /\ committed w' = committed w ++ [e]
    /\ EventFinalizer.codeSource e = 0
    /\ symbols w' = symbols w
    /\ symbol_id_counter w' = symbol_id_counter w.
Proof.
  intros Hfin Hnone. eexists _, _.
  split; [by apply send_unload_event_run|].
  rewrite after_send_committed. unfold after_send.
  change (heap (after_now w)) with (heap w). rewrite Hnone.
  cbn. split; [reflexivity|]. by destruct (entry_of w ik).
Qed.

Lemma built_event_codeSource (fe : option FinalizerEntry.t)
    (ik : option InstanceKlass) (timestamp : JfrTicks) (id : traceid) :
  EventFinalizer.codeSource (built_event fe ik timestamp id) = id.
Proof. by destruct fe. Qed.

(** X11. The provenance of the unload event does not depend on the
    tracking table: with any other table in its place the event gets the
    same code-source identifier and the symbol table ends up the same. *)
Theorem send_unload_event_provenance_ignores_table (w : World)
    (table : list FinalizerEntry.t) (ik : InstanceKlass) :
  has_finalizer ik = true ->
  exists w1 e1 w2 e2,
    send_unload_event (Some ik) w = Ok tt w1
    /\ committed w1 = committed w ++ [e1]
    /\ send_unload_event (Some ik) (set_finalizer_table table w) = Ok tt w2
    /\ committed w2 = committed w ++ [e2]
    /\ EventFinalizer.codeSource e1 = EventFinalizer.codeSource e2
    /\ symbols w1 = symbols w2
    /\ symbol_id_counter w1 = symbol_id_counter w2.
Proof.
  intros Hfin. eexists _, _, _, _.
  split; [by apply send_unload_event_run|].
  split; [by rewrite after_send_committed|].
  split; [by apply send_unload_event_run|].
  split; [by rewrite after_send_committed|].
  rewrite !built_event_codeSource.
  unfold after_send, intern, JfrSymbolTable_add. cbn.
  destruct (ProvenanceResolver_resolve (heap w) ik) as [url|]; [|done].
  cbn. by destruct (symbols w !! url).
Qed.

(** *** Sweeps of a product build *)

Lemma do_entry_product (fec : FinalizerEventClosure) (th : Thread)
    (fe : FinalizerEntry.t) (ik : InstanceKlass) (w : World) :
  ASSERT w = false ->
  _thread fec = Some th ->
  FinalizerEntry.klass fe = Some ik ->
  do_entry fec (Some fe) w = Ok true (after_send (Some fe) ik (_timestamp fec) w).
Proof.
  intros HA Hth Ek.
  cbn [do_entry FinalizerEventClosure_closure].
  unfold FinalizerEventClosure_do_entry.
  rewrite (bind_Ok _ _ w w tt) by by apply assert_off.
  rewrite (bind_Ok _ _ w w fe) by done.
  rewrite Ek, Hth.
  by rewrite (bind_Ok _ _ w _ tt (send_event_product (Some fe) ik _ th w HA)).
Qed.

Lemma do_scan_product (fec : FinalizerEventClosure) (th : Thread)
    (entries : list FinalizerEntry.t) :
  _thread fec = Some th ->
  Forall (fun fe => FinalizerEntry.klass fe <> None) entries ->
  forall w, ASSERT w = false ->
  exists w', do_scan fec entries w = Ok tt w'.
Proof.
  intros Hth. induction 1 as [|fe rest Hk _ IH]; intros w HA.
  - by exists w.
  - destruct (FinalizerEntry.klass fe) as [ik|] eqn:Ek; [|done].
    pose proof (do_entry_product fec th fe ik w HA Hth Ek) as Hrun.
    destruct (IH (after_send (Some fe) ik (_timestamp fec) w)) as (w' & Hscan).
    + destruct (after_send_preserved (Some fe) ik (_timestamp fec) w)
        as ((-> & _) & _). exact HA.
    + exists w'. cbn [do_scan]. by rewrite (bind_Ok _ _ _ _ _ Hrun).
Qed.

(** X12. In a product build a sweep needs only that the klass of every
    entry is non-null: it then completes, whether or not those klasses have
    a finalizer, and commits one event per entry with the sweep's timestamp
    and the entry's klass and counters. *)
Theorem generate_events_product_build (w : World) :
  ASSERT w = false ->
  Forall (fun fe => FinalizerEntry.klass fe <> None) (finalizer_table w) ->
  exists w' evs,
    generate_events w = Ok tt w'
    /\ committed w' = committed w ++ evs
    /\ length evs = length (finalizer_table w)
    /\ Forall2 (fun fe e =>
                  EventFinalizer.endtime e = ticks w (clock_reads w)
                  /\ carries_entry fe e)
               (finalizer_table w) evs.
Proof.
  intros HA Hk.
  destruct (do_scan_product
              (mkClosure (Some (current w)) (ticks w (clock_reads w)))
              (current w) (finalizer_table w) eq_refl Hk (after_now w) HA)
    as (w' & Hrun).
  destruct (do_scan_inv_built _ _ _ _ _ Hrun) as (evs & Hc & Hall).
  exists w', evs. rewrite generate_events_unfold.
  split; [done|]. split; [done|]. split; [|done].
  symmetry. by eapply Forall2_length.
Qed.

(** ** The further properties at concrete states *)

Lemma world0_unload : send_unload_event (Some klass_A) world0 = Ok tt world_unload.
Proof. vm_compute. reflexivity. Defined.

Lemma world_bad_invalid : ~ table_valid world_bad.
Proof.
  unfold table_valid. cbn. intros H.
  apply Forall_cons in H as [_ H]. apply Forall_cons in H as [H _].
  discriminate H.
Defined.

(** X2 at [klass_E], in the debug build [world0] and in the product build
    of the same state. *)
Lemma send_unload_event_without_finalizer_witness :
  send_unload_event (Some klass_E) world0 = Crash (assertion_failure "invariant")
  /\ exists w' e,
       send_unload_event (Some klass_E) (product_build world0) = Ok tt w'
       /\ committed w' = committed (product_build world0) ++ [e]
       /\ EventFinalizer.overridingClass e = Some klass_E
       /\ match entry_of (product_build world0) klass_E with
          | Some fe => carries_entry fe e
          | None => zero_counters e
          end.
Proof.
  split.
  - exact (proj1 (send_unload_event_without_finalizer world0 klass_E eq_refl)
                 eq_refl).
  - exact (proj2 (send_unload_event_without_finalizer (product_build world0)
                    klass_E eq_refl) eq_refl).
Defined.

(** X3 with the entry of [klass_B] passed for [klass_A]. *)
Lemma send_event_klass_mismatch_witness :
  send_event (Some entry_B) (Some klass_A) 7 (Some 1%positive) world0
    = Crash (assertion_failure "invariant")
  /\ exists w' e,
       send_event (Some entry_B) (Some klass_A) 7 (Some 1%positive)
                  (product_build world0) = Ok tt w'
       /\ committed w' = committed (product_build world0) ++ [e]
       /\ EventFinalizer.overridingClass e = Some klass_A
       /\ EventFinalizer.registered e = 7
       /\ EventFinalizer.enqueued e = 7
       /\ EventFinalizer.finalized e = 1.
Proof.
  assert (FinalizerEntry.klass entry_B <> Some klass_A) as Hne by discriminate.
  split.
  - exact (proj1 (send_event_klass_mismatch entry_B klass_A 7 1%positive world0
                    eq_refl Hne) eq_refl).
  - exact (proj2 (send_event_klass_mismatch entry_B klass_A 7 1%positive
                    (product_build world0) eq_refl Hne) eq_refl).
Defined.

(** X4 at [world0]. *)
Lemma generate_events_completed_witness :
  exists evs,
    committed world1 = committed world0 ++ evs
    /\ length evs = length (finalizer_table world0)
    /\ Forall2 (fun fe e =>
                  EventFinalizer.endtime e = ticks world0 (clock_reads world0)
                  /\ carries_entry fe e)
               (finalizer_table world0) evs.
Proof. exact (generate_events_completed world0 world1 world0_sweep). Defined.

(** X5 at [world0], for [klass_A]. *)
Lemma send_unload_event_completed_witness :
  exists e,
    committed world_unload = committed world0 ++ [e]
    /\ EventFinalizer.overridingClass e = Some klass_A
    /\ EventFinalizer.endtime e = ticks world0 (clock_reads world0)
    /\ clock_reads world_unload = S (clock_reads world0)
    /\ match List.find (fun fe => bool_decide (FinalizerEntry.klass fe = Some klass_A))
                       (finalizer_table world0) with
       | Some fe =>
         EventFinalizer.registered e = FinalizerEntry.registered fe
         /\ EventFinalizer.enqueued e = FinalizerEntry.enqueued fe
         /\ EventFinalizer.finalized e = FinalizerEntry.finalized fe
       | None => zero_counters e
       end.
Proof.
  exact (send_unload_event_completed (Some klass_A) world0 world_unload
           world0_unload).
Defined.

(** X6 at [world0], for [klass_A]. *)
Lemma send_unload_event_read_only_witness :
  finalizer_table world_unload = finalizer_table world0
  /\ heap world_unload = heap world0.
Proof.
  exact (send_unload_event_read_only (Some klass_A) world0 world_unload
           world0_unload).
Defined.

(** X7 at [world_bad]. *)
Lemma generate_events_invalid_table_witness :
  generate_events world_bad = Crash (assertion_failure "invariant").
Proof.
  exact (generate_events_invalid_table world_bad eq_refl world_bad_invalid).
Defined.

(** X8 at [world_empty]. *)
Lemma generate_events_empty_table_witness :
  exists w',
    generate_events world_empty = Ok tt w'
    /\ committed w' = committed world_empty
    /\ symbols w' = symbols world_empty
    /\ symbol_id_counter w' = symbol_id_counter world_empty
    /\ clock_reads w' = S (clock_reads world_empty).
Proof. exact (generate_events_empty_table world_empty eq_refl). Defined.

(** X9 at [world0]. *)
Lemma sweep_code_source_interned_witness :
  exists w' evs,
    generate_events world0 = Ok tt w'
    /\ committed w' = committed world0 ++ evs
    /\ symbols world0 ⊆ symbols w'
    /\ Forall2 (fun fe e =>
                  forall ik url,
                    FinalizerEntry.klass fe = Some ik ->
                    ProvenanceResolver_resolve (heap world0) ik = Some url ->
                    symbols w' !! url = Some (EventFinalizer.codeSource e))
               (finalizer_table world0) evs.
Proof. exact (sweep_code_source_interned world0 world0_table_valid). Defined.

(** X10 at [world0], for [klass_B]. *)
Lemma send_unload_event_no_provenance_witness :
  exists w' e,
    send_unload_event (Some klass_B) world0 = Ok tt w'
    /\ committed w' = committed world0 ++ [e]
    /\ EventFinalizer.codeSource e = 0
    /\ symbols w' = symbols world0
    /\ symbol_id_counter w' = symbol_id_counter world0.
Proof. exact (send_unload_event_no_provenance world0 klass_B eq_refl eq_refl). Defined.

(** X11 at [world0], for [klass_A] with the table emptied. *)
Lemma send_unload_event_provenance_ignores_table_witness :
  exists w1 e1 w2 e2,
    send_unload_event (Some klass_A) world0 = Ok tt w1
    /\ committed w1 = committed world0 ++ [e1]
    /\ send_unload_event (Some klass_A) (set_finalizer_table [] world0) = Ok tt w2
    /\ committed w2 = committed world0 ++ [e2]
    /\ EventFinalizer.codeSource e1 = EventFinalizer.codeSource e2
    /\ symbols w1 = symbols w2
    /\ symbol_id_counter w1 = symbol_id_counter w2.
Proof.
  exact (send_unload_event_provenance_ignores_table world0 [] klass_A eq_refl).
Defined.

(** X12 at the product build of [world_bad]. *)
Lemma generate_events_product_build_witness :
  exists w' evs,
    generate_events (product_build world_bad) = Ok tt w'
    /\ committed w' = committed (product_build world_bad) ++ evs
    /\ length evs = length (finalizer_table (product_build world_bad))
    /\ Forall2 (fun fe e =>
                  EventFinalizer.endtime e
                  = ticks (product_build world_bad)
                          (clock_reads (product_build world_bad))
                  /\ carries_entry fe e)
               (finalizer_table (product_build world_bad)) evs.
Proof.
  apply (generate_events_product_build (product_build world_bad) eq_refl).
  cbn. by repeat constructor.
Defined.
